(** * scripts/embed_builtins.py: the build-time generator of builtin_sl.cpp

    A shallow embedding of the four functions of the script
    ([collect_files], [cpp_escape], [generate_content],
    [atomic_write_if_changed]) and of [main], with the Python library
    calls they make, followed by the properties of the generator. *)

From Stdlib Require Import Ascii String NArith.
From stdpp Require Import base option list strings gmap sorting.

Local Open Scope char_scope.
Local Open Scope list_scope.

(** ** Text

    A Python [str] is kept as the list of its UTF-8 code units.  Every
    pattern the script searches for is an ASCII character, so [replace],
    [endswith], [rsplit], [rfind], [==] and [<] act on the code units as
    they act on the code points.  [bytes] is the same type, used for what
    is stored in a file. *)

Abbreviation str := (list ascii).
Abbreviation bytes := (list ascii).

Definition lit (s : string) : str := list_ascii_of_string s.

Definition BS : ascii := "092".   (* backslash *)
Definition DQ : ascii := "034".   (* double quote *)
Definition CR : ascii := "013".   (* carriage return *)
Definition LF : ascii := "010".   (* line feed *)

Module Py.

(** [s.replace(old, new)] where [old] is one character (all four calls
    of the script are of that form). *)
Definition replace (old : ascii) (new : str) (s : str) : str :=
  flat_map (λ c, if Ascii.eqb c old then new else [c]) s.

(** [s.endswith(suffix)] *)
Definition endswith (s suffix : str) : bool :=
  bool_decide (drop (length s - length suffix) s = suffix).

(** [s.rfind(ch)]: the index of the last occurrence, [None] for -1. *)
Fixpoint rfind (ch : ascii) (s : str) : option nat :=
  match s with
  | [] => None
  | c :: s' =>
      match rfind ch s' with
      | Some i => Some (S i)
      | None => if Ascii.eqb c ch then Some 0 else None
      end
  end.

(** [s.rsplit(sep, 1)[0]]: what precedes the last [sep], the whole
    string when there is none. *)
Definition rsplit1_head (sep : ascii) (s : str) : str :=
  match rfind sep s with
  | Some i => take i s
  | None => s
  end.

(** [sep.join(parts)] *)
Fixpoint join (sep : str) (parts : list str) : str :=
  match parts with
  | [] => []
  | [x] => x
  | x :: rest => x ++ sep ++ join sep rest
  end.

(** [x < y] on sequences: the first differing position decides, a
    proper prefix is smaller. *)
Fixpoint seq_ltb {A} (eqb ltb : A → A → bool) (x y : list A) : bool :=
  match x, y with
  | _, [] => false
  | [], _ :: _ => true
  | a :: x', b :: y' => if eqb a b then seq_ltb eqb ltb x' y' else ltb a b
  end.

Definition chr_ltb (a b : ascii) : bool :=
  (N_of_ascii a <? N_of_ascii b)%N.

Definition str_ltb : str → str → bool := seq_ltb Ascii.eqb chr_ltb.

(** [sorted(xs)]: a stable sort that only asks [<]. *)
Fixpoint insort {A} (ltb : A → A → bool) (x : A) (l : list A) : list A :=
  match l with
  | [] => [x]
  | y :: l' => if ltb x y then x :: y :: l' else y :: insort ltb x l'
  end.

Definition sorted {A} (ltb : A → A → bool) (l : list A) : list A :=
  foldl (λ acc x, insort ltb x acc) [] l.

End Py.

(** What [sorted] needs of [<] to be the same for every order of its
    input: a strict total order, with [==] deciding equality. *)
Class LtOrder {A} (eqb ltb : A → A → bool) := {
  eqb_true a b : eqb a b = true ↔ a = b;
  ltb_asym a b : ltb a b = true → ltb b a = false;
  ltb_trans a b c : ltb a b = true → ltb b c = true → ltb a c = true;
  ltb_tricho a b : ltb a b = false → ltb b a = false → a = b }.

(** [x <= y], as [not (y < x)]. *)
Definition leb_of {A} (ltb : A → A → bool) (x y : A) : Prop := ltb y x = false.

(** ** Exceptions *)

Inductive exn := OSError | UnicodeDecodeError | UnicodeEncodeError.

Inductive result (A : Type) := Ok (a : A) | Raise (e : exn).
Arguments Ok {A} a.
Arguments Raise {A} e.

(** [try: body / except Exception: handler] *)
Definition try_except {A} (body handler : result A) : result A :=
  match body with
  | Ok a => Ok a
  | Raise _ => handler
  end.

(** ** The utf-8 codec and text-mode reading

    [open(..., 'r', encoding='utf-8', errors=...)] decodes the bytes of
    the file and, [newline] being left at its default, translates every
    line ending to a line feed.  [encoding='utf-8'] accepts the
    well-formed sequences of the Unicode standard; [errors='replace']
    puts U+FFFD for each maximal ill-formed part and goes on. *)

Module Codec.

Definition byte_in (lo hi : N) (c : ascii) : bool :=
  ((lo <=? N_of_ascii c) && (N_of_ascii c <=? hi))%N.

(** For a lead byte: the number of continuation bytes and the range
    allowed for the first of them. *)
Definition lead (c : ascii) : option (nat * N * N) :=
  if byte_in 0xC2 0xDF c then Some (1, 0x80%N, 0xBF%N)
  else if byte_in 0xE0 0xE0 c then Some (2, 0xA0%N, 0xBF%N)
  else if byte_in 0xE1 0xEC c then Some (2, 0x80%N, 0xBF%N)
  else if byte_in 0xED 0xED c then Some (2, 0x80%N, 0x9F%N)
  else if byte_in 0xEE 0xEF c then Some (2, 0x80%N, 0xBF%N)
  else if byte_in 0xF0 0xF0 c then Some (3, 0x90%N, 0xBF%N)
  else if byte_in 0xF1 0xF3 c then Some (3, 0x80%N, 0xBF%N)
  else if byte_in 0xF4 0xF4 c then Some (3, 0x80%N, 0x8F%N)
  else None.

(** U+FFFD *)
Definition REPLACEMENT : str := ["239"; "191"; "189"].

Inductive dstate :=
| Start
| Cont (pending : bytes) (more : nat) (lo hi : N).

Definition emit (x : str) (r : bool * str) : bool * str := (r.1, x ++ r.2).
Definition bad (r : bool * str) : bool * str := (false, REPLACEMENT ++ r.2).

(** One pass gives both readings: whether the bytes are well formed,
    and the text with the ill-formed parts replaced. *)
Fixpoint scan (st : dstate) (b : bytes) : bool * str :=
  match b with
  | [] =>
      match st with
      | Start => (true, [])
      | Cont _ _ _ _ => (false, REPLACEMENT)
      end
  | c :: b' =>
      let at_start :=
        if byte_in 0 0x7F c then emit [c] (scan Start b')
        else match lead c with
             | Some (n, lo, hi) => scan (Cont [c] n lo hi) b'
             | None => bad (scan Start b')
             end in
      match st with
      | Start => at_start
      | Cont pending more lo hi =>
          if byte_in lo hi c then
            match more with
            | S (S m) => scan (Cont (pending ++ [c]) (S m) 0x80 0xBF) b'
            | _ => emit (pending ++ [c]) (scan Start b')
            end
          else bad at_start
      end
  end.

Definition utf8_valid (b : bytes) : bool := (scan Start b).1.

(** [b.decode('utf-8')]: the text is kept as its code units, so a
    well-formed sequence decodes to itself. *)
Definition decode_strict (b : bytes) : result str :=
  if utf8_valid b then Ok b else Raise UnicodeDecodeError.

(** [b.decode('utf-8', errors='replace')] *)
Definition decode_replace (b : bytes) : str := (scan Start b).2.

(** [s.encode('utf-8')]: a string that holds a lone surrogate (an
    undecodable byte of a file name) cannot be encoded. *)
Definition encode (s : str) : result bytes :=
  if utf8_valid s then Ok s else Raise UnicodeEncodeError.

(** Universal newlines on input: CR LF and a lone CR both become LF. *)
Fixpoint universal_newlines (s : str) : str :=
  match s with
  | [] => []
  | c :: s' =>
      if Ascii.eqb c CR then
        LF :: match s' with
              | c' :: s'' =>
                  if Ascii.eqb c' LF then universal_newlines s''
                  else universal_newlines s'
              | [] => []
              end
      else c :: universal_newlines s'
  end.

End Codec.

(** ** Files and paths *)

Record file := { f_bytes : bytes; f_readable : bool }.

Inductive errors := Strict | Replace.

(** [Path.read_text(encoding='utf-8', errors=...)] on an existing file. *)
Definition read_text (f : file) (errs : errors) : result str :=
  if f_readable f then
    match errs with
    | Strict =>
        match Codec.decode_strict (f_bytes f) with
        | Ok s => Ok (Codec.universal_newlines s)
        | Raise e => Raise e
        end
    | Replace => Ok (Codec.universal_newlines (Codec.decode_replace (f_bytes f)))
    end
  else Raise OSError.

(** A path below [lib_dir] is the list of its components. *)
Abbreviation path := (list str).

Module PathLib.

(** [p.name] *)
Definition name (p : path) : str := default [] (last p).

(** [p.suffix]: [name[i:]] for [i = name.rfind('.')] when
    [0 < i < len(name) - 1], else the empty string. *)
Definition suffix (p : path) : str :=
  let n := name p in
  match Py.rfind "." n with
  | Some i => if ((0 <? i) && (i <? length n - 1))%nat then drop i n else []
  | None => []
  end.

(** [p.relative_to(lib_dir).as_posix()] *)
Definition as_posix (p : path) : str := Py.join ["/"] p.

(** [p < q]: the component lists are compared. *)
Definition path_ltb : path → path → bool :=
  Py.seq_ltb (λ a b, bool_decide (a = b)) Py.str_ltb.

End PathLib.

Inductive node := Dir | File (f : file).

(** The directory [lib_dir] when it exists: the paths below it in the
    order in which [rglob('*')] yields them, and what each of them is. *)
Record libdir := { rglob : list path; node_at : gmap path node }.

Definition is_file (d : libdir) (p : path) : bool :=
  match node_at d !! p with
  | Some (File _) => true
  | _ => false
  end.

Definition path_read_text (d : libdir) (p : path) (errs : errors) : result str :=
  match node_at d !! p with
  | Some (File f) => read_text f errs
  | _ => Raise OSError
  end.

(** ** collect_files (lines 25-37) *)

Definition has_source_suffix (p : path) : bool :=
  bool_decide (PathLib.suffix p = lit ".sl")
  || bool_decide (PathLib.suffix p = lit ".swz").

Fixpoint collect_loop (d : libdir) (ps : list path) (pairs : list (str * str))
  : result (list (str * str)) :=
  match ps with
  | [] => Ok pairs
  | p :: ps' =>
      if is_file d p && has_source_suffix p then
        let rel := PathLib.as_posix p in
        match try_except (path_read_text d p Strict) (path_read_text d p Replace) with
        | Ok data => collect_loop d ps' (pairs ++ [(rel, data)])
        | Raise e => Raise e
        end
      else collect_loop d ps' pairs
  end.

Definition collect_files (lib_dir : option libdir) : result (list (str * str)) :=
  match lib_dir with
  | None => Ok []
  | Some d => collect_loop d (Py.sorted PathLib.path_ltb (rglob d)) []
  end.

(** The test of line 30. *)
Definition eligible (d : libdir) (p : path) : bool :=
  is_file d p && has_source_suffix p.

(** What the [try]/[except] of lines 32-35 gives for a file. *)
Definition read_or_replace (f : file) : result str :=
  try_except (read_text f Strict) (read_text f Replace).

(** What one eligible path contributes to the result. *)
Definition contributes (d : libdir) (p : path) (pair : str * str) : Prop :=
  ∃ f, node_at d !! p = Some (File f)
       ∧ pair.1 = PathLib.as_posix p ∧ read_or_replace f = Ok pair.2.

(** ** cpp_escape (lines 39-46) *)

Definition cpp_escape (s : str) : str :=
  let s := Py.replace BS [BS; BS] s in
  let s := Py.replace DQ [BS; DQ] s in
  let s := Py.replace CR [] s in
  let s := Py.replace LF [BS; "n"; DQ; LF; DQ] s in
  s.

(** What the four replacements of [cpp_escape] do to one character. *)
Definition escape_char (c : ascii) : str :=
  if Ascii.eqb c BS then [BS; BS]
  else if Ascii.eqb c DQ then [BS; DQ]
  else if Ascii.eqb c CR then []
  else if Ascii.eqb c LF then [BS; "n"; DQ; LF; DQ]
  else [c].

(** ** generate_content (lines 48-71) *)

(** The f-string of lines 57, 60 and 61: one row of the table. *)
Definition row (key esc : str) : str :=
  lit "    { " ++ [DQ] ++ key ++ [DQ] ++ lit ", " ++ [DQ] ++ esc ++ [DQ]
  ++ lit " }," ++ [LF].

Definition header_parts : list str :=
  [ lit "// GENERATED FILE - do not edit. Regenerate with scripts/embed_builtins.py" ++ [LF];
    lit "#include " ++ [DQ] ++ lit "builtin_sl.h" ++ [DQ; LF];
    lit "#include <unordered_map>" ++ [LF] ++ lit "#include <string>" ++ [LF]
      ++ lit "#include <optional>" ++ [LF; LF];
    lit "using namespace std;" ++ [LF; LF];
    lit "static unordered_map<string,string> __embedded_modules = {" ++ [LF] ].

Definition footer_parts : list str :=
  [ lit "};" ++ [LF; LF];
    lit "bool has_embedded_module(const std::string &spec) {" ++ [LF];
    lit "    return __embedded_modules.find(spec) != __embedded_modules.end();" ++ [LF];
    lit "}" ++ [LF; LF];
    lit "std::optional<std::string> get_embedded_module_source(const std::string &spec) {" ++ [LF];
    lit "    auto it = __embedded_modules.find(spec);" ++ [LF];
    lit "    if (it == __embedded_modules.end()) return std::nullopt;" ++ [LF];
    lit "    return it->second;" ++ [LF];
    lit "}" ++ [LF] ].

(** The body of the loop of lines 55-61, on the list [parts]. *)
Definition append_rows (parts : list str) (pair : str * str) : list str :=
  let '(rel, data) := pair in
  let esc := cpp_escape data in
  let parts := parts ++ [row rel esc] in
  if Py.endswith rel (lit ".sl") || Py.endswith rel (lit ".swz") then
    let noext := Py.rsplit1_head "." rel in
    let parts := parts ++ [row noext esc] in
    parts ++ [row (lit "swazi:" ++ noext) esc]
  else parts.

(** The list [parts] when the function reaches its [return]. *)
Definition generate_parts (pairs : list (str * str)) : list str :=
  foldl append_rows header_parts pairs ++ footer_parts.

Definition generate_content (pairs : list (str * str)) : str :=
  concat (generate_parts pairs).

(** The rows of the table as (key text, value text), in the order in
    which they are appended. *)
Definition keys_of (rel : str) : list str :=
  rel ::
  if Py.endswith rel (lit ".sl") || Py.endswith rel (lit ".swz") then
    [Py.rsplit1_head "." rel; lit "swazi:" ++ Py.rsplit1_head "." rel]
  else [].


(** Lines 110-111 of [main]: the document of a run. *)
Definition document (lib_dir : option libdir) : result str :=
  match collect_files lib_dir with
  | Ok pairs => Ok (generate_content pairs)
  | Raise x => Raise x
  end.


(** The rows one pair contributes, as text. *)
Definition rows_of (pair : str * str) : list str :=
  (λ k, row k (cpp_escape pair.2)) <$> keys_of pair.1.

(** The reading of a C++ string literal, as far as the generator uses it:
    the text given is what stands between the first opening quote and the
    last closing quote of a sequence of adjacent literals.  Inside a
    literal a backslash introduces one of the three escapes, a quote
    closes the literal and a raw line feed is ill-formed; between two
    literals only white space may stand, and the next quote opens the
    following literal, whose text is appended. *)

Inductive lit_state := InLiteral | BetweenLiterals.

Fixpoint cpp_literal_value (st : lit_state) (s : str) : option str :=
  match s with
  | [] => match st with InLiteral => Some [] | BetweenLiterals => None end
  | c :: s' =>
      match st with
      | InLiteral =>
          if Ascii.eqb c BS then
            match s' with
            | e :: s'' =>
                if Ascii.eqb e BS then cons BS <$> cpp_literal_value InLiteral s''
                else if Ascii.eqb e DQ then cons DQ <$> cpp_literal_value InLiteral s''
                else if Ascii.eqb e "n" then cons LF <$> cpp_literal_value InLiteral s''
                else None
            | [] => None
            end
          else if Ascii.eqb c DQ then cpp_literal_value BetweenLiterals s'
          else if Ascii.eqb c LF then None
          else cons c <$> cpp_literal_value InLiteral s'
      | BetweenLiterals =>
          if Ascii.eqb c DQ then cpp_literal_value InLiteral s'
          else if Ascii.eqb c LF || Ascii.eqb c " " || Ascii.eqb c "009"
               then cpp_literal_value BetweenLiterals s'
          else None
      end
  end.

Definition cpp_unescape (s : str) : option str :=
  cpp_literal_value InLiteral s.

(** ** The generated table in the host program

    [__embedded_modules] is an [unordered_map] built from the initializer
    list of the rows: each row is inserted in turn, and an insertion into
    a map that already holds the key leaves the map as it is.  The two
    accessors are the ones the generated text defines: both look the key
    up with [find].  Keys and values are the values of the string
    literals of the row; a row whose literal is ill formed makes the
    whole unit ill formed ([None]). *)

Module Host.






End Host.

(** A key that reads as itself between the quotes of a literal. *)
Definition plain_key (k : str) : Prop := Forall (λ c, c ≠ BS ∧ c ≠ DQ ∧ c ≠ LF) k.




(** ** The writer: state, environment and system calls

    The writer works in the directory [path.parent]; [dir] is [None]
    while that directory does not exist, else the files in it by name.
    [history] keeps every state the directory is put in, in order, and
    [stdout] the lines printed.  The host is POSIX: a text-mode write
    stores the encoded text as it is. *)

Inductive message := NoChanges | Wrote.

Record proc := {
  dir : option (gmap str file);
  history : list (gmap str file);
  stdout : list message }.

(** What the operating system decides during one call. *)
Record env := {
  mkdir_fails : bool;
  mkstemp_fails : bool;
  mkstemp_random : str;        (* the eight characters mkstemp puts after the prefix *)
  write_fails : option nat;    (* [Some n]: the write fails once n bytes are stored *)
  replace_fails : bool;
  unlink_fails : bool }.

Definition M (A : Type) : Type := proc → result A * proc.

Definition ret {A} (a : A) : M A := λ s, (Ok a, s).

Definition bind {A B} (m : M A) (k : A → M B) : M B :=
  λ s, match m s with
       | (Ok a, s') => k a s'
       | (Raise x, s') => (Raise x, s')
       end.

Definition raise {A} (x : exn) : M A := λ s, (Raise x, s).

Notation "'do' x <- m ; k" := (bind m (λ x, k))
  (at level 10, x name, m at level 100, k at level 200).
Notation "m ;;; k" := (bind m (λ _, k))
  (at level 100, k at level 200, right associativity).

(** [try: body / except Exception: handler] *)
Definition try_except_M {A} (body handler : M A) : M A :=
  λ s, match body s with
       | (Ok a, s') => (Ok a, s')
       | (Raise _, s') => handler s'
       end.

(** [try: body / finally: cleanup] *)
Definition try_finally {A} (body : M A) (cleanup : M unit) : M A :=
  λ s, let '(r, s1) := body s in
       match cleanup s1 with
       | (Ok _, s2) => (r, s2)
       | (Raise x, s2) => (Raise x, s2)
       end.

Definition get_dir : M (gmap str file) :=
  λ s, match dir s with
       | Some d => (Ok d, s)
       | None => (Raise OSError, s)
       end.

Definition set_dir (d : gmap str file) : M unit :=
  λ s, (Ok (), {| dir := Some d; history := history s ++ [d]; stdout := stdout s |}).

Definition print (m : message) : M unit :=
  λ s, (Ok (), {| dir := dir s; history := history s; stdout := stdout s ++ [m] |}).

Definition new_file (b : bytes) : file := {| f_bytes := b; f_readable := true |}.

Section syscalls.

Variable e : env.

(** [path.parent.mkdir(parents=True, exist_ok=True)] *)
Definition mkdir_parents : M unit :=
  λ s, match dir s with
       | Some _ => (Ok (), s)
       | None => if mkdir_fails e then (Raise OSError, s) else set_dir ∅ s
       end.

(** [path.exists()] and [os.path.exists(name)] *)
Definition path_exists (name : str) : M bool :=
  λ s, (Ok (bool_decide (is_Some (dir s ≫= (.!! name)))), s).

(** [path.read_text(encoding='utf-8')] *)
Definition target_read_text (name : str) : M str :=
  do d <- get_dir;
  match d !! name with
  | Some f => λ s, (read_text f Strict, s)
  | None => raise OSError
  end.

(** [tempfile.mkstemp(prefix=path.name, dir=str(path.parent))] *)
Definition mkstemp (prefix : str) : M str :=
  do d <- get_dir;
  if mkstemp_fails e then raise OSError
  else
    let tmpname := prefix ++ mkstemp_random e in
    match d !! tmpname with
    | Some _ => raise OSError   (* FileExistsError: no free name was found *)
    | None => set_dir (<[tmpname := new_file []]> d) ;;; ret tmpname
    end.

(** [with os.fdopen(fd, 'w', encoding='utf-8') as tmpf: tmpf.write(content)] *)
Definition write_text (tmpname : str) (content : str) : M unit :=
  do d <- get_dir;
  match Codec.encode content with
  | Raise x => raise x
  | Ok b =>
      match write_fails e with
      | Some n => set_dir (<[tmpname := new_file (take n b)]> d) ;;; raise OSError
      | None => set_dir (<[tmpname := new_file b]> d)
      end
  end.

(** [os.replace(src, dst)] *)
Definition os_replace (src dst : str) : M unit :=
  do d <- get_dir;
  if replace_fails e then raise OSError
  else match d !! src with
       | Some f => set_dir (<[dst := f]> (delete src d))
       | None => raise OSError
       end.

(** [os.unlink(name)] *)
Definition os_unlink (name : str) : M unit :=
  do d <- get_dir;
  if unlink_fails e then raise OSError
  else match d !! name with
       | Some _ => set_dir (delete name d)
       | None => raise OSError
       end.

(** ** atomic_write_if_changed (lines 73-99)

    [name] is [path.name].  Lines 76-84 give [Some false] where the
    function returns early (line 81) and [None] where it goes on. *)

Definition check_existing (name : str) (content : str) : M (option bool) :=
  do ex <- path_exists name;
  if ex : bool then
    try_except_M
      (do existing <- target_read_text name;
       if bool_decide (existing = content)
       then print NoChanges ;;; ret (Some false)
       else ret None)
      (ret None)
  else ret None.

(** Lines 86-99. *)
Definition write_phase (name : str) (content : str) : M bool :=
  do tmpname <- mkstemp name;
  try_finally
    (write_text tmpname content ;;;
     os_replace tmpname name ;;;
     print Wrote ;;;
     ret true)
    (do ex <- path_exists tmpname;
     if ex : bool then try_except_M (os_unlink tmpname) (ret ())
     else ret ()).

Definition atomic_write_if_changed (name : str) (content : str) : M bool :=
  mkdir_parents ;;;
  do early <- check_existing name content;
  match early with
  | Some r => ret r
  | None => write_phase name content
  end.

(** ** main (lines 101-116)

    The result is the exit status of the process: an exception that
    nothing catches ends it with status 1. *)

Definition main (lib_dir : option libdir) (out_name : str) (s : proc) : N * proc :=
  match collect_files lib_dir with
  | Raise _ => (1%N, s)
  | Ok pairs =>
      let content := generate_content pairs in
      match atomic_write_if_changed out_name content s with
      | (Ok changed, s') => if negb changed then (0%N, s') else (0%N, s')
      | (Raise _, s') => (1%N, s')
      end
  end.

End syscalls.

(** ** What the properties of the writer speak of *)

(** The file found under a name of the output directory. *)
Definition file_at (s : proc) (n : str) : option file := dir s ≫= (.!! n).

(** The target exists, can be read, is well-formed utf-8, and its text,
    line endings translated, is the new document. *)
Definition unchanged_on_disk (s : proc) (name content : str) : Prop :=
  ∃ f, file_at s name = Some f ∧ f_readable f = true
       ∧ Codec.utf8_valid (f_bytes f) = true
       ∧ Codec.universal_newlines (f_bytes f) = content.

(** No step of the write phase fails. *)
Definition no_fault (e : env) (name content : str) (s : proc) : Prop :=
  (dir s = None → mkdir_fails e = false)
  ∧ mkstemp_fails e = false
  ∧ file_at s (name ++ mkstemp_random e) = None
  ∧ Codec.utf8_valid content = true
  ∧ write_fails e = None
  ∧ replace_fails e = false.

(** What a call of the writer can end in, and what holds then; [hs] are
    the states the directory went through during the call. *)
Definition outcome (e : env) (name content : str)
    (s : proc) (r : result bool) (s' : proc) (hs : list (gmap str file)) : Prop :=
  match r with
  | Ok false =>
      unchanged_on_disk s name content
      ∧ hs = [] ∧ dir s' = dir s ∧ stdout s' = stdout s ++ [NoChanges]
  | Ok true =>
      ¬ unchanged_on_disk s name content
      ∧ file_at s' name = Some (new_file content)
      ∧ (∀ n, n ≠ name → file_at s' n = file_at s n)
      ∧ Codec.utf8_valid content = true
      ∧ stdout s' = stdout s ++ [Wrote]
      ∧ Forall (λ h, h !! name = file_at s name
                     ∨ h !! name = Some (new_file content)) hs
  | Raise _ =>
      ¬ unchanged_on_disk s name content
      ∧ file_at s' name = file_at s name
      ∧ Forall (λ h, h !! name = file_at s name) hs
      ∧ stdout s' = stdout s
      ∧ (unlink_fails e = false → ∀ n, file_at s' n = file_at s n)
  end.

(** A text without carriage return. *)
Abbreviation no_CR := (Forall (λ c : ascii, c ≠ CR)).

(** ** Sample inputs *)

Definition sample_nodes : gmap path node :=
  {[ [lit "std.sl"] := File (new_file (lit "kazi main"));
     [lit "pkg"] := Dir;
     [lit "pkg"; lit "foo.swz"] := File (new_file (lit "data x = 1")) ]}.

Definition sample_lib : libdir :=
  {| rglob := [[lit "std.sl"]; [lit "pkg"]; [lit "pkg"; lit "foo.swz"]];
     node_at := sample_nodes |}.

Definition sample_pairs : list (str * str) :=
  [(lit "pkg/foo.swz", lit "data x = 1"); (lit "std.sl", lit "kazi main")].

(** A file that cannot be opened. *)
Definition locked_lib : libdir :=
  {| rglob := [[lit "std.sl"]];
     node_at := {[ [lit "std.sl"] :=
                     File {| f_bytes := lit "kazi main"; f_readable := false |} ]} |}.

(** A file whose first byte is not utf-8. *)
Definition garbled_lib : libdir :=
  {| rglob := [[lit "std.sl"]];
     node_at := {[ [lit "std.sl"] := File (new_file ("255" :: lit "kazi")) ]} |}.

(** An environment in which no system call fails, and an empty output
    directory. *)
Definition calm_env : env :=
  {| mkdir_fails := false; mkstemp_fails := false;
     mkstemp_random := lit "k3x9_a0q"; write_fails := None;
     replace_fails := false; unlink_fails := false |}.


(** A file name that holds a double quote. *)
Definition quoted_pairs : list (str * str) :=
  [(lit "a" ++ [DQ] ++ lit "b.sl", lit "say " ++ [DQ] ++ lit "hi" ++ [DQ])].



(** The name of the target, an output directory that holds an older
    target, and environments in which a step of the write phase fails. *)
Definition out_name : str := lit "builtin_sl.cpp".

Definition old_proc : proc :=
  {| dir := Some {[ out_name := new_file (lit "old text") ]};
     history := []; stdout := [] |}.


(** The replace fails. *)
Definition stuck_env : env :=
  {| mkdir_fails := false; mkstemp_fails := false;
     mkstemp_random := lit "k3x9_a0q"; write_fails := None;
     replace_fails := true; unlink_fails := false |}.





(** * Properties *)

Section escape.

Lemma cpp_escape_chars s : cpp_escape s = flat_map escape_char s.
Proof.
  unfold cpp_escape, Py.replace. induction s as [|c s IH]; [done|].
  cbn [flat_map]. rewrite !flat_map_app, IH. f_equal.
  unfold escape_char.
  destruct (Ascii.eqb_spec c BS) as [->|N1]; [done|].
  destruct (Ascii.eqb_spec c DQ) as [->|N2]; [done|].
  destruct (Ascii.eqb_spec c CR) as [->|N3]; [done|].
  destruct (Ascii.eqb_spec c LF) as [->|N4]; [done|].
  apply Ascii.eqb_neq in N1, N2, N3, N4.
  cbn [flat_map app]. rewrite N2. cbn [flat_map app]. rewrite N3.
  cbn [flat_map app]. by rewrite N4.
Qed.

Lemma literal_value_escape s :
  cpp_literal_value InLiteral (flat_map escape_char s)
  = Some (filter (λ c, c ≠ CR) s).
Proof.
  induction s as [|c s IH]; [done|].
  cbn [flat_map]. unfold escape_char at 1.
  destruct (Ascii.eqb_spec c BS) as [->|N1].
  { rewrite filter_cons_True by done. cbn. by rewrite IH. }
  destruct (Ascii.eqb_spec c DQ) as [->|N2].
  { rewrite filter_cons_True by done. cbn. by rewrite IH. }
  destruct (Ascii.eqb_spec c CR) as [->|N3].
  { cbn [app]. rewrite IH. rewrite filter_cons_False; [done|]. by intros []. }
  destruct (Ascii.eqb_spec c LF) as [->|N4].
  { rewrite filter_cons_True by done. cbn. by rewrite IH. }
  rewrite filter_cons_True by done.
  apply Ascii.eqb_neq in N1, N2, N4.
  cbn. rewrite N1, N2, N4, IH. done.
Qed.

End escape.

(** C2.  Reading the output of [cpp_escape] by the rules of the host
    language's string literals (the three escapes undone, adjacent literal
    fragments concatenated) gives back the input with every carriage
    return removed and every other character kept, for every input. *)
Theorem cpp_escape_roundtrip (s : str) :
  cpp_unescape (cpp_escape s) = Some (filter (λ c, c ≠ CR) s).
Proof.
  unfold cpp_unescape. rewrite cpp_escape_chars. apply literal_value_escape.
Qed.


(** ** Order of paths and [sorted] *)

Section order.

Context {A : Type} `{EqDecision A} (eqb ltb : A → A → bool) `{!LtOrder eqb ltb}.

Lemma eqb_false a b : eqb a b = false ↔ a ≠ b.
Proof. rewrite <-(eqb_true (ltb:=ltb)). by destruct (eqb a b). Qed.

Lemma eqb_sym a b : eqb a b = eqb b a.
Proof.
  destruct (eqb a b) eqn:E1, (eqb b a) eqn:E2; try done.
  - apply eqb_true in E1 as ->. apply eqb_false in E2. done.
  - apply eqb_true in E2 as ->. apply eqb_false in E1. done.
Qed.

Lemma ltb_irrefl a : ltb a a = false.
Proof.
  destruct (ltb a a) eqn:E; [|done].
  by rewrite (ltb_asym (eqb:=eqb) a a E) in E.
Qed.

Lemma seq_ltb_asym x y :
  Py.seq_ltb eqb ltb x y = true → Py.seq_ltb eqb ltb y x = false.
Proof.
  revert y. induction x as [|a x IH]; intros [|b y]; cbn; try done.
  rewrite (eqb_sym b a). destruct (eqb a b); [apply IH|apply (ltb_asym (eqb:=eqb))].
Qed.

Lemma seq_ltb_trans x y z :
  Py.seq_ltb eqb ltb x y = true → Py.seq_ltb eqb ltb y z = true →
  Py.seq_ltb eqb ltb x z = true.
Proof.
  revert y z. induction x as [|a x IH]; intros [|b y] [|c z]; cbn; try done.
  destruct (eqb a b) eqn:Eab.
  { apply eqb_true in Eab as ->. destruct (eqb b c); [apply IH|done]. }
  destruct (eqb b c) eqn:Ebc.
  { apply eqb_true in Ebc as <-. by rewrite Eab. }
  intros Hab Hbc. destruct (eqb a c) eqn:Eac.
  { apply eqb_true in Eac as ->.
    by rewrite (ltb_asym (eqb:=eqb) _ _ Hab) in Hbc. }
  by apply (ltb_trans (eqb:=eqb)) with b.
Qed.

Lemma seq_ltb_tricho x y :
  Py.seq_ltb eqb ltb x y = false → Py.seq_ltb eqb ltb y x = false → x = y.
Proof.
  revert y. induction x as [|a x IH]; intros [|b y]; cbn; try done.
  rewrite (eqb_sym b a). destruct (eqb a b) eqn:Eab.
  { apply eqb_true in Eab as ->. intros. f_equal. by apply IH. }
  intros H1 H2. apply eqb_false in Eab.
  destruct Eab. by apply (ltb_tricho (eqb:=eqb)).
Qed.

#[export] Instance seq_LtOrder :
  LtOrder (λ x y : list A, bool_decide (x = y)) (Py.seq_ltb eqb ltb).
Proof.
  split.
  - intros. apply bool_decide_eq_true.
  - apply seq_ltb_asym.
  - apply seq_ltb_trans.
  - apply seq_ltb_tricho.
Qed.

(** [<=] is a total order. *)
#[export] Instance leb_of_trans : Transitive (leb_of ltb).
Proof.
  unfold leb_of. intros x y z Hxy Hyz.
  destruct (ltb z x) eqn:Hzx; [|done].
  destruct (ltb x y) eqn:Hlt.
  - by rewrite (ltb_trans (eqb:=eqb) _ _ _ Hzx Hlt) in Hyz.
  - by rewrite <-(ltb_tricho (eqb:=eqb) _ _ Hlt Hxy), Hzx in Hyz.
Qed.

#[export] Instance leb_of_antisym : AntiSymm (=) (leb_of ltb).
Proof. intros x y H1 H2. by apply (ltb_tricho (eqb:=eqb)). Qed.

Lemma insort_Sorted x l :
  Sorted (leb_of ltb) l → Sorted (leb_of ltb) (Py.insort ltb x l).
Proof.
  induction 1 as [|y l Hl IH Hy]; cbn.
  { by repeat constructor. }
  destruct (ltb x y) eqn:Hxy.
  - constructor; [by constructor|]. constructor.
    by apply (ltb_asym (eqb:=eqb)).
  - constructor; [done|].
    destruct Hy as [|z l Hz]; cbn.
    + by constructor.
    + destruct (ltb x z); by constructor.
Qed.

Lemma insort_Permutation x l : Py.insort ltb x l ≡ₚ x :: l.
Proof.
  induction l as [|y l IH]; cbn; [done|].
  destruct (ltb x y); [done|]. by rewrite IH, Permutation_swap.
Qed.

Lemma sorted_Sorted l : Sorted (leb_of ltb) (Py.sorted ltb l).
Proof.
  unfold Py.sorted. generalize (Sorted_nil (leb_of ltb)).
  generalize (@nil A). induction l as [|x l IH]; intros acc Hacc; cbn; [done|].
  by apply IH, insort_Sorted.
Qed.

Lemma sorted_Permutation l : Py.sorted ltb l ≡ₚ l.
Proof.
  unfold Py.sorted. rewrite <-(app_nil_l l) at 2.
  generalize (@nil A). induction l as [|x l IH]; intros acc; cbn.
  { by rewrite app_nil_r. }
  rewrite IH, insort_Permutation. apply Permutation_middle.
Qed.

Lemma sorted_order_independent l1 l2 :
  l1 ≡ₚ l2 → Py.sorted ltb l1 = Py.sorted ltb l2.
Proof.
  intros Hp. apply (Sorted_unique (leb_of ltb)); [apply sorted_Sorted..|].
  by rewrite !sorted_Permutation.
Qed.

End order.

#[export] Instance chr_LtOrder : LtOrder Ascii.eqb Py.chr_ltb.
Proof.
  unfold Py.chr_ltb. split.
  - apply Ascii.eqb_eq.
  - intros a b. rewrite N.ltb_lt, N.ltb_ge. lia.
  - intros a b c. rewrite !N.ltb_lt. lia.
  - intros a b. rewrite !N.ltb_ge. intros H1 H2.
    rewrite <-(ascii_N_embedding a), <-(ascii_N_embedding b). f_equal. lia.
Qed.

#[export] Instance str_LtOrder : LtOrder (λ a b : str, bool_decide (a = b)) Py.str_ltb.
Proof. apply seq_LtOrder, _. Qed.

Lemma sorted_paths_order_independent (l1 l2 : list path) :
  l1 ≡ₚ l2 → Py.sorted PathLib.path_ltb l1 = Py.sorted PathLib.path_ltb l2.
Proof.
  apply (sorted_order_independent (λ a b : path, bool_decide (a = b))).
  apply seq_LtOrder, _.
Qed.

Lemma collect_loop_nodes d1 d2 ps acc :
  node_at d1 = node_at d2 → collect_loop d1 ps acc = collect_loop d2 ps acc.
Proof.
  intros Hn. revert acc. induction ps as [|p ps IH]; intros acc; [done|].
  cbn. unfold is_file, path_read_text. rewrite Hn.
  destruct (_ && _); [|apply IH].
  destruct (try_except _ _); [apply IH|done].
Qed.

(** C5.  The document does not depend on the order in which the file
    system enumerates the paths: two runs over the same tree, whose
    enumerations are permutations of each other, collect the same pairs
    and produce the same document text (or fail alike). *)
Theorem document_deterministic (nodes : gmap path node) (order1 order2 : list path) :
  order1 ≡ₚ order2 →
  collect_files (Some {| rglob := order1; node_at := nodes |})
  = collect_files (Some {| rglob := order2; node_at := nodes |})
  ∧ document (Some {| rglob := order1; node_at := nodes |})
    = document (Some {| rglob := order2; node_at := nodes |}).
Proof.
  intros Hp. unfold document, collect_files. cbn [rglob node_at].
  rewrite (sorted_paths_order_independent _ _ Hp).
  rewrite (collect_loop_nodes _ {| rglob := order2; node_at := nodes |}) by done.
  by split.
Qed.

Lemma document_deterministic_witness :
  [[lit "std.sl"]; [lit "pkg"]; [lit "pkg"; lit "foo.swz"]]
    ≡ₚ [[lit "pkg"; lit "foo.swz"]; [lit "std.sl"]; [lit "pkg"]]
  ∧ document
      (Some {| rglob := [[lit "std.sl"]; [lit "pkg"]; [lit "pkg"; lit "foo.swz"]];
               node_at := sample_nodes |})
    = document
        (Some {| rglob := [[lit "pkg"; lit "foo.swz"]; [lit "std.sl"]; [lit "pkg"]];
                 node_at := sample_nodes |}).
Proof.
  assert ([[lit "std.sl"]; [lit "pkg"]; [lit "pkg"; lit "foo.swz"]]
            ≡ₚ [[lit "pkg"; lit "foo.swz"]; [lit "std.sl"]; [lit "pkg"]]) as Hp.
  { apply Permutation_sym. exact (Permutation_cons_append [_; _] _). }
  split; [exact Hp|].
  exact (proj2 (document_deterministic sample_nodes _ _ Hp)).
Defined.

(** ** Keys and rows *)

Section keys.









Lemma keys_of_length rel : length (keys_of rel) ≤ 3.
Proof. unfold keys_of. destruct (_ || _); cbn; lia. Qed.

Lemma foldl_append_rows parts pairs :
  foldl append_rows parts pairs = parts ++ flat_map rows_of pairs.
Proof.
  revert parts. induction pairs as [|[rel data] pairs IH]; intros parts; cbn.
  { by rewrite app_nil_r. }
  rewrite IH. unfold rows_of, keys_of. cbn [fst snd].
  destruct (_ || _); cbn; by rewrite <-!(assoc (++)).
Qed.

Lemma generate_parts_rows pairs :
  generate_parts pairs = header_parts ++ flat_map rows_of pairs ++ footer_parts.
Proof.
  unfold generate_parts. by rewrite foldl_append_rows, <-(assoc (++)).
Qed.


End keys.

(** ** The collector *)

Section collector.

Variable d : libdir.

Lemma collect_loop_Ok ps acc pairs :
  collect_loop d ps acc = Ok pairs →
  ∃ new, pairs = acc ++ new
         ∧ Forall2 (contributes d) (filter (λ p, eligible d p) ps) new.
Proof.
  revert acc. induction ps as [|p ps IH]; intros acc; cbn [collect_loop].
  { intros [= <-]. exists []. by rewrite app_nil_r. }
  fold (eligible d p). destruct (eligible d p) eqn:He.
  - rewrite filter_cons_True by by rewrite He.
    unfold eligible, is_file in He. unfold path_read_text.
    destruct (node_at d !! p) as [[|f]|] eqn:Hn; try done.
    fold (read_or_replace f).
    destruct (read_or_replace f) as [data|] eqn:Hr; [|done].
    intros (new & -> & Hnew)%IH. clear IH.
    exists ((PathLib.as_posix p, data) :: new). split.
    { by rewrite <-(assoc (++)). }
    constructor; [|done]. exists f. by repeat split.
  - rewrite filter_cons_False by (rewrite He; exact id). apply IH.
Qed.

Lemma read_or_replace_readable f :
  f_readable f = true →
  read_or_replace f
  = Ok (Codec.universal_newlines
          (if Codec.utf8_valid (f_bytes f) then f_bytes f
           else Codec.decode_replace (f_bytes f))).
Proof.
  unfold read_or_replace, read_text, Codec.decode_strict. intros ->.
  by destruct (Codec.utf8_valid (f_bytes f)).
Qed.

Lemma read_or_replace_unreadable f :
  f_readable f = false → read_or_replace f = Raise OSError.
Proof. unfold read_or_replace, read_text. by intros ->. Qed.


Lemma collect_loop_unreadable ps acc p f :
  p ∈ ps → node_at d !! p = Some (File f) → has_source_suffix p = true →
  f_readable f = false → ∃ x, collect_loop d ps acc = Raise x.
Proof.
  intros Hp Hn Hs Hr.
  destruct (collect_loop d ps acc) as [pairs|x] eqn:Hc; [|by eexists].
  apply collect_loop_Ok in Hc as (new & -> & Hnew).
  assert (p ∈ filter (λ p, eligible d p) ps) as Hin.
  { apply list_elem_of_filter. split; [|done].
    unfold eligible, is_file. by rewrite Hn, Hs. }
  apply list_elem_of_lookup in Hin as [i Hi].
  destruct (Forall2_lookup_l _ _ _ _ _ Hnew Hi) as (pr & _ & f' & Hn' & _ & Hok).
  rewrite Hn in Hn'. injection Hn' as <-.
  by rewrite read_or_replace_unreadable in Hok.
Qed.

End collector.







Example garbled_file_collected :
  collect_files (Some garbled_lib)
  = Ok [(lit "std.sl", Codec.REPLACEMENT ++ lit "kazi")].
Proof. by vm_compute. Qed.

(** ** Keys are not escaped *)

Lemma rfind_lt ch s i : Py.rfind ch s = Some i → i < length s.
Proof.
  revert i. induction s as [|c s IH]; intros i; cbn; [done|].
  destruct (Py.rfind ch s) as [j|].
  - intros [= <-]. specialize (IH j eq_refl). lia.
  - destruct (Ascii.eqb c ch); [|done]. intros [= <-]. lia.
Qed.

Lemma rsplit1_head_prefix sep s : Py.rsplit1_head sep s `prefix_of` s.
Proof.
  unfold Py.rsplit1_head. destruct (Py.rfind sep s); [|done].
  apply prefix_take.
Qed.

(** C10.  Only the content is escaped.  For every pair the generator is
    given, each of its keys (the relative path itself, what precedes its
    last dot, and the latter after "swazi:") is put between the quotes of
    the key position exactly as it is, next to the escaped content; the
    two aliases are cut out of the path without any rewriting.  A quote or
    a backslash of the path therefore stands unescaped in the row. *)
Theorem keys_verbatim (pairs : list (str * str)) (rel data : str) :
  (rel, data) ∈ pairs →
  rel ∈ keys_of rel
  ∧ Py.rsplit1_head "." rel `prefix_of` rel
  ∧ (∀ k, k ∈ keys_of rel →
       (k = rel ∨ k = Py.rsplit1_head "." rel
        ∨ k = lit "swazi:" ++ Py.rsplit1_head "." rel)
       ∧ lit "    { " ++ [DQ] ++ k ++ [DQ] ++ lit ", " ++ [DQ] ++ cpp_escape data
           ++ [DQ] ++ lit " }," ++ [LF] ∈ generate_parts pairs).
Proof.
  intros Hin. split; [by left|]. split; [apply rsplit1_head_prefix|].
  intros k Hk. split.
  - unfold keys_of in Hk. destruct (_ || _).
    + apply list_elem_of_In in Hk. cbn in Hk. intuition auto.
    + apply list_elem_of_singleton in Hk. by left.
  - rewrite generate_parts_rows. apply elem_of_app. right.
    apply elem_of_app. left. apply list_elem_of_In, in_flat_map.
    exists (rel, data). split; [by apply list_elem_of_In|].
    apply list_elem_of_In. unfold rows_of. cbn [fst snd].
    by apply (list_elem_of_fmap_2 (λ k, row k (cpp_escape data))).
Qed.

Lemma keys_verbatim_witness :
  (lit "a" ++ [DQ] ++ lit "b.sl", lit "say " ++ [DQ] ++ lit "hi" ++ [DQ])
    ∈ quoted_pairs
  ∧ lit "a" ++ [DQ] ++ lit "b.sl" ∈ keys_of (lit "a" ++ [DQ] ++ lit "b.sl").
Proof.
  assert ((lit "a" ++ [DQ] ++ lit "b.sl", lit "say " ++ [DQ] ++ lit "hi" ++ [DQ])
            ∈ quoted_pairs) as H by (by left).
  split; [exact H|]. exact (proj1 (keys_verbatim quoted_pairs _ _ H)).
Defined.

(** The row of such a pair: the quote of the name closes the key literal
    early, the quotes of the content are escaped. *)
Example quoted_key_row :
  generate_parts quoted_pairs !! 5
  = Some (lit "    { " ++ [DQ] ++ lit "a" ++ [DQ] ++ lit "b.sl" ++ [DQ] ++ lit ", "
          ++ [DQ] ++ lit "say " ++ [BS; DQ] ++ lit "hi" ++ [BS; DQ] ++ [DQ]
          ++ lit " }," ++ [LF])
  ∧ cpp_unescape (lit "a" ++ [DQ] ++ lit "b.sl") = None.
Proof. by vm_compute. Qed.

(** ** The table in the host program *)

Section host.






End host.




(** ** The writer *)

Lemma tmpname_ne (name rand : str) : length rand = 8 → name ++ rand ≠ name.
Proof.
  intros H E. apply (f_equal length) in E. rewrite length_app in E. lia.
Qed.

Ltac run_writer :=
  unfold write_phase, check_existing, try_finally, try_except_M, mkstemp,
    write_text, os_replace, os_unlink, path_exists, target_read_text,
    get_dir, set_dir, print, bind, ret, raise, Codec.encode in *.

Ltac map_step :=
  repeat first
    [ rewrite lookup_insert_eq
    | rewrite lookup_delete_eq
    | rewrite lookup_insert_ne by done
    | rewrite lookup_delete_ne by done
    | rewrite insert_insert_eq
    | rewrite delete_insert_eq
    | rewrite delete_id by done
    | match goal with
      | H : ?m !! ?k = None |- context [?m !! ?k] => rewrite H
      end
    | progress cbn ].

Section writer.

Variables (e : env) (name content : str).

Lemma check_existing_unchanged s :
  unchanged_on_disk s name content →
  check_existing name content s
  = (Ok (Some false),
     {| dir := dir s; history := history s; stdout := stdout s ++ [NoChanges] |}).
Proof.
  intros (f & Hf & Hr & Hv & Ht). unfold file_at in Hf.
  destruct (dir s) as [d|] eqn:Hd; [|done]. cbn in Hf.
  run_writer. rewrite Hd. cbn. rewrite Hf. cbn. rewrite Hd, Hf.
  unfold read_text, Codec.decode_strict. rewrite Hr, Hv, Ht.
  rewrite bool_decide_eq_true_2 by done. by rewrite Hd.
Qed.

Lemma check_existing_changed s :
  ¬ unchanged_on_disk s name content →
  check_existing name content s = (Ok None, s).
Proof.
  intros Hn. unfold unchanged_on_disk, file_at in Hn.
  destruct (dir s) as [d|] eqn:Hd; run_writer; rewrite Hd; cbn; [|done].
  destruct (d !! name) as [f|] eqn:Hf; cbn; [|done].
  rewrite Hd, Hf. unfold read_text, Codec.decode_strict.
  destruct (f_readable f) eqn:Hr; [|done].
  destruct (Codec.utf8_valid (f_bytes f)) eqn:Hv; [|done].
  case_bool_decide as Ht; [|done]. destruct Hn. by exists f.
Qed.

Lemma write_phase_Raise s d x s' :
  dir s = Some d → length (mkstemp_random e) = 8 →
  write_phase e name content s = (Raise x, s') →
  (∃ hs, history s' = history s ++ hs ∧ Forall (λ h, h !! name = d !! name) hs)
  ∧ file_at s' name = d !! name
  ∧ stdout s' = stdout s
  ∧ (unlink_fails e = false → dir s' = Some d).
Proof.
  intros Hd Hlen. pose proof (tmpname_ne name _ Hlen) as Hne.
  pose proof (not_eq_sym Hne) as Hne'.
  unfold file_at. run_writer. rewrite Hd. cbn.
  destruct (mkstemp_fails e).
  { intros [= <- <-]. rewrite Hd. repeat split; try done.
    exists []. by rewrite app_nil_r. }
  destruct (d !! (name ++ mkstemp_random e)) eqn:Htmp; cbn.
  { intros [= <- <-]. rewrite Hd. repeat split; try done.
    exists []. by rewrite app_nil_r. }
  destruct (Codec.utf8_valid content), (write_fails e), (replace_fails e),
    (unlink_fails e); map_step; intros ?; simplify_eq;
    cbn.
  all: repeat split; try done; try (map_step; done).
  all: rewrite <-?app_assoc; eexists; split; [reflexivity|].
  all: repeat constructor; map_step; done.
Qed.

Lemma write_phase_Ok s d b s' :
  dir s = Some d → length (mkstemp_random e) = 8 →
  write_phase e name content s = (Ok b, s') →
  b = true
  ∧ dir s' = Some (<[name := new_file content]> d)
  ∧ Codec.utf8_valid content = true
  ∧ stdout s' = stdout s ++ [Wrote]
  ∧ ∃ hs, history s' = history s ++ hs
          ∧ Forall (λ h, h !! name = d !! name
                         ∨ h !! name = Some (new_file content)) hs.
Proof.
  intros Hd Hlen. pose proof (tmpname_ne name _ Hlen) as Hne.
  pose proof (not_eq_sym Hne) as Hne'.
  run_writer. rewrite Hd. cbn.
  destruct (mkstemp_fails e); [done|].
  destruct (d !! (name ++ mkstemp_random e)) eqn:Htmp; cbn; [done|].
  destruct (Codec.utf8_valid content), (write_fails e), (replace_fails e),
    (unlink_fails e); map_step; intros ?; simplify_eq;
    cbn.
  all: repeat split; try done; try (map_step; done).
  all: rewrite <-?app_assoc; eexists; split; [reflexivity|].
  all: repeat (apply Forall_cons; split;
               [map_step; first [by left|by right]|]); done.
Qed.


Lemma unchanged_on_disk_dec s :
  unchanged_on_disk s name content ∨ ¬ unchanged_on_disk s name content.
Proof.
  unfold unchanged_on_disk.
  destruct (file_at s name) as [f|]; [|right; by intros (? & ? & _)].
  destruct (f_readable f) eqn:Hr; [|right; intros (? & ? & ? & _); congruence].
  destruct (Codec.utf8_valid (f_bytes f)) eqn:Hv;
    [|right; intros (? & ? & ? & ? & _); congruence].
  destruct (decide (Codec.universal_newlines (f_bytes f) = content)) as [Ht|Ht].
  - left. by exists f.
  - right. intros (? & ? & ? & ? & ?). congruence.
Qed.

Lemma outcome_after_check s d r s' :
  dir s = Some d → length (mkstemp_random e) = 8 →
  (do early <- check_existing name content;
   match early with
   | Some r => ret r
   | None => write_phase e name content
   end) s = (r, s') →
  ∃ hs, history s' = history s ++ hs ∧ outcome e name content s r s' hs.
Proof.
  intros Hd Hlen. unfold bind at 1.
  destruct (unchanged_on_disk_dec s) as [Hu|Hu].
  - rewrite (check_existing_unchanged s Hu). unfold ret. intros [= <- <-].
    exists []. rewrite app_nil_r. by repeat split.
  - rewrite (check_existing_changed s Hu).
    assert (file_at s name = d !! name) as Hat by (unfold file_at; by rewrite Hd).
    destruct r as [b|x]; intros Hw.
    + apply (write_phase_Ok s d) in Hw as (-> & Hd' & Hv & Hout & hs & Hh & Hhs);
        [|done..].
      exists hs. split; [done|]. unfold outcome. rewrite Hat.
      repeat split; try done.
      * unfold file_at. rewrite Hd'. cbn. by rewrite lookup_insert_eq.
      * intros n Hn. unfold file_at. rewrite Hd', Hd. cbn.
        by rewrite lookup_insert_ne.
    + apply (write_phase_Raise s d) in Hw as ((hs & Hh & Hhs) & Ht & Hout & Hun);
        [|done..].
      exists hs. split; [done|]. unfold outcome. rewrite Hat.
      repeat split; try done.
      intros Hu' n. unfold file_at. by rewrite (Hun Hu'), Hd.
Qed.

Lemma atomic_write_outcome s r s' :
  length (mkstemp_random e) = 8 →
  atomic_write_if_changed e name content s = (r, s') →
  ∃ hs, history s' = history s ++ hs ∧ outcome e name content s r s' hs.
Proof.
  intros Hlen. unfold atomic_write_if_changed, bind at 1, mkdir_parents.
  destruct (dir s) as [d|] eqn:Hd.
  { by apply outcome_after_check with d. }
  destruct (mkdir_fails e).
  { intros [= <- <-]. exists []. rewrite app_nil_r. cbn. repeat split; try done.
    intros (f & Hf & _). unfold file_at in Hf. by rewrite Hd in Hf. }
  unfold set_dir.
  intros (hs & Hh & Ho)%(outcome_after_check _ ∅); [|done..].
  cbn in Hh. rewrite <-(assoc (++)) in Hh. eexists. split; [exact Hh|].
  assert (∀ n, file_at s n = None) as Hnone
    by (intros n; unfold file_at; by rewrite Hd).
  assert (¬ unchanged_on_disk s name content) as Hu.
  { intros (f & Hf & _). by rewrite Hnone in Hf. }
  unfold outcome, unchanged_on_disk, file_at in *. cbn in Ho.
  rewrite Hd. cbn.
  destruct r as [[|]|x].
  - destruct Ho as (_ & ? & Hn & ? & ? & Hhs).
    repeat split; try done; try by intros (? & ? & _).
    all: try (intros n Hne; by rewrite (Hn n Hne), lookup_empty).
    constructor; [by left|].
    eapply Forall_impl; [exact Hhs|]. cbn. by rewrite lookup_empty.
  - destruct Ho as ((f & Hf & _) & _). by rewrite lookup_empty in Hf.
  - destruct Ho as (_ & Ht & Hhs & ? & Hun).
    repeat split; try done; try by intros (? & ? & _).
    all: try by rewrite Ht, lookup_empty.
    all: try (intros Hu' n; by rewrite (Hun Hu' n), lookup_empty).
    constructor; [done|].
    eapply Forall_impl; [exact Hhs|]. cbn. by rewrite lookup_empty.
Qed.



End writer.




(** X11.  In every state the directory goes through during a call,
    whatever its end (unchanged, written, or an exception), the target is
    the old one or the complete new one: the replace is the only step
    that touches it. *)
Lemma target_never_partial (e : env) (name content : str) (s s' : proc) r :
  length (mkstemp_random e) = 8 →
  atomic_write_if_changed e name content s = (r, s') →
  ∃ hs, history s' = history s ++ hs
        ∧ Forall (λ h, h !! name = file_at s name
                       ∨ h !! name = Some (new_file content)) hs.
Proof.
  intros Hlen Hw.
  destruct (atomic_write_outcome e name content s _ _ Hlen Hw) as (hs & Hh & Ho).
  exists hs. split; [done|]. destruct r as [[|]|x]; cbn in Ho.
  - by destruct Ho as (_ & _ & _ & _ & _ & ?).
  - by destruct Ho as (_ & -> & _).
  - destruct Ho as (_ & _ & Hhs & _). eapply Forall_impl; [exact Hhs|].
    by left.
Qed.




Example new_text_written :
  ¬ unchanged_on_disk old_proc out_name (lit "new text")
  ∧ no_fault calm_env out_name (lit "new text") old_proc
  ∧ (atomic_write_if_changed calm_env out_name (lit "new text") old_proc).1
    = Ok true
  ∧ file_at (atomic_write_if_changed calm_env out_name (lit "new text") old_proc).2
      out_name
    = Some (new_file (lit "new text")).
Proof.
  split.
  { intros (f & Hf & _ & _ & Ht). vm_compute in Hf. injection Hf as <-.
    by vm_compute in Ht. }
  by vm_compute.
Qed.

(** ** Carriage returns in the document *)

Section carriage_return.


Lemma cpp_escape_no_CR data : no_CR (cpp_escape data).
Proof.
  rewrite cpp_escape_chars. induction data as [|c data IH]; [done|].
  cbn [flat_map]. apply Forall_app. split; [|done]. unfold escape_char.
  destruct (Ascii.eqb_spec c BS); [by repeat constructor|].
  destruct (Ascii.eqb_spec c DQ); [by repeat constructor|].
  destruct (Ascii.eqb_spec c CR); [done|].
  destruct (Ascii.eqb_spec c LF); by repeat constructor.
Qed.




End carriage_return.

(** ** Two runs *)








(** * Further properties of the script *)

(** ** cpp_escape *)

Lemma cpp_escape_filter (s : str) :
  cpp_escape (filter (λ c, c ≠ CR) s) = cpp_escape s.
Proof.
  rewrite !cpp_escape_chars. induction s as [|c s IH]; [done|].
  destruct (decide (c = CR)) as [->|Hc].
  - rewrite filter_cons_False by (by intros []). by rewrite IH.
  - rewrite filter_cons_True by done. cbn [flat_map]. by rewrite IH.
Qed.

(** X1.  Escaping goes through concatenation: the escaped text of two
    pieces put together is the escaped texts put together, so a content
    can be escaped piece by piece. *)
Theorem cpp_escape_app (a b : str) :
  cpp_escape (a ++ b) = cpp_escape a ++ cpp_escape b.
Proof. rewrite !cpp_escape_chars. apply flat_map_app. Qed.

(** X2.  Two contents have the same escaped text exactly when they are
    equal once their carriage returns are dropped: escaping loses the
    carriage returns and nothing else. *)
Theorem cpp_escape_injective (a b : str) :
  cpp_escape a = cpp_escape b
  ↔ filter (λ c, c ≠ CR) a = filter (λ c, c ≠ CR) b.
Proof.
  split.
  - intros H. apply (f_equal cpp_unescape) in H. unfold cpp_unescape in H.
    rewrite !cpp_escape_chars, !literal_value_escape in H. by injection H.
  - intros H. by rewrite <-(cpp_escape_filter a), <-(cpp_escape_filter b), H.
Qed.

Lemma escape_char_length (c : ascii) :
  c ≠ CR →
  1 ≤ length (escape_char c)
  ∧ (length (escape_char c) = 1 → c ≠ BS ∧ c ≠ DQ ∧ c ≠ LF).
Proof.
  intros Hc. unfold escape_char.
  destruct (Ascii.eqb_spec c BS); [cbn; lia|].
  destruct (Ascii.eqb_spec c DQ); [cbn; lia|].
  destruct (Ascii.eqb_spec c CR); [done|].
  destruct (Ascii.eqb_spec c LF); [cbn; lia|].
  cbn. by split; [lia|].
Qed.

Lemma cpp_escape_grows (s : str) :
  no_CR s →
  length s ≤ length (cpp_escape s)
  ∧ (length (cpp_escape s) = length s → plain_key s).
Proof.
  rewrite cpp_escape_chars.
  induction 1 as [|c s Hc _ [IH1 IH2]]; [by split; [|constructor]|].
  cbn [flat_map]. rewrite length_app. cbn [length].
  destruct (escape_char_length c Hc) as [H1 H2].
  split; [lia|]. intros Hlen. constructor.
  - apply H2. lia.
  - apply IH2. lia.
Qed.

(** X3.  A content is embedded as it is, unchanged by the escaping,
    exactly when it holds no backslash, no double quote, no carriage
    return and no line feed. *)
Theorem cpp_escape_fixed (s : str) :
  cpp_escape s = s ↔ no_CR s ∧ plain_key s.
Proof.
  split.
  - intros H. assert (no_CR s) as Hcr by (rewrite <-H; apply cpp_escape_no_CR).
    split; [done|]. apply (cpp_escape_grows s Hcr). by rewrite H.
  - intros [Hcr Hp]. rewrite cpp_escape_chars.
    induction Hp as [|c s (N1 & N2 & N3) _ IH]; [done|].
    apply Forall_cons in Hcr as [N4 Hcr]. cbn [flat_map]. rewrite (IH Hcr).
    unfold escape_char. apply Ascii.eqb_neq in N1, N2, N3, N4.
    by rewrite N1, N2, N3, N4.
Qed.

(** ** Keys in the host program *)



(** ** collect_files *)

Lemma StronglySorted_filter {A} (R : relation A) (P : A → Prop)
    `{∀ x, Decision (P x)} (l : list A) :
  StronglySorted R l → StronglySorted R (filter P l).
Proof.
  induction 1 as [|x l Hl IH Hx]; [constructor|].
  destruct (decide (P x)).
  - rewrite filter_cons_True by done. constructor; [done|].
    apply Forall_forall. intros y [_ Hy]%list_elem_of_filter.
    by apply (proj1 (Forall_forall _ _) Hx).
  - by rewrite filter_cons_False.
Qed.

Lemma sorted_paths_StronglySorted (ps : list path) :
  StronglySorted (leb_of PathLib.path_ltb) (Py.sorted PathLib.path_ltb ps).
Proof.
  pose proof (seq_LtOrder (λ a b : str, bool_decide (a = b)) Py.str_ltb) as Hord.
  apply (Sorted_StronglySorted (leb_of PathLib.path_ltb)).
  exact (sorted_Sorted (λ a b : path, bool_decide (a = b)) PathLib.path_ltb _).
Qed.

(** X5.  The pairs come in ascending order of the paths, compared
    component by component, and only from eligible entries: they are, one
    for one, the contributions of a sorted list of paths of the tree, each
    of which is a file with one of the two suffixes.  Nothing else (no
    directory, no file with another suffix) gives a pair. *)
Theorem collected_in_path_order (d : libdir) (pairs : list (str * str)) :
  collect_files (Some d) = Ok pairs →
  ∃ ps, StronglySorted (leb_of PathLib.path_ltb) ps
        ∧ Forall (λ p, p ∈ rglob d ∧ is_file d p = true
                       ∧ has_source_suffix p = true) ps
        ∧ Forall2 (contributes d) ps pairs.
Proof.
  intros Hc. cbn in Hc. apply collect_loop_Ok in Hc as (new & -> & Hnew).
  eexists. split; [|split; [|exact Hnew]].
  - apply StronglySorted_filter, sorted_paths_StronglySorted.
  - apply Forall_forall. intros p [He Hp]%list_elem_of_filter.
    rewrite (sorted_Permutation PathLib.path_ltb) in Hp.
    unfold eligible in He. apply andb_prop_elim in He as [H1 H2].
    by repeat split; [|apply Is_true_true..].
Qed.

Lemma collected_in_path_order_witness :
  collect_files (Some sample_lib) = Ok sample_pairs
  ∧ ∃ ps, StronglySorted (leb_of PathLib.path_ltb) ps
          ∧ Forall (λ p, p ∈ rglob sample_lib ∧ is_file sample_lib p = true
                         ∧ has_source_suffix p = true) ps
          ∧ Forall2 (contributes sample_lib) ps sample_pairs.
Proof.
  assert (collect_files (Some sample_lib) = Ok sample_pairs) as H
    by (vm_compute; reflexivity).
  split; [exact H|]. exact (collected_in_path_order sample_lib sample_pairs H).
Defined.

Lemma universal_newlines_no_CR_upto (n : nat) (s : str) :
  length s ≤ n → no_CR (Codec.universal_newlines s).
Proof.
  revert s. induction n as [|n IH]; intros [|c s] Hn; cbn [length] in Hn;
    try lia; try by constructor.
  cbn [Codec.universal_newlines]. destruct (Ascii.eqb_spec c CR) as [->|Hc].
  - constructor; [done|]. destruct s as [|c' s]; [constructor|].
    cbn [length] in Hn. destruct (Ascii.eqb c' LF); apply IH; cbn [length]; lia.
  - constructor; [done|]. apply IH. lia.
Qed.

Lemma read_or_replace_no_CR (f : file) (data : str) :
  read_or_replace f = Ok data → no_CR data.
Proof.
  destruct (f_readable f) eqn:Hr.
  - rewrite (read_or_replace_readable f Hr). intros [= <-].
    by apply (universal_newlines_no_CR_upto _ _ (le_n _)).
  - by rewrite (read_or_replace_unreadable f Hr).
Qed.

Lemma filter_no_CR (s : str) : no_CR s → filter (λ c, c ≠ CR) s = s.
Proof.
  induction 1 as [|c s Hc _ IH]; [done|].
  by rewrite filter_cons_True, IH.
Qed.

(** X6.  No collected content holds a carriage return: reading in text
    mode has already turned every line ending into a line feed.  The
    third replacement of [cpp_escape] therefore removes nothing from a
    collected content, and the literal written for it reads back as that
    content exactly. *)
Theorem collected_content_exact (d : libdir) (pairs : list (str * str))
    (rel data : str) :
  collect_files (Some d) = Ok pairs → (rel, data) ∈ pairs →
  no_CR data
  ∧ Py.replace CR [] data = data
  ∧ cpp_unescape (cpp_escape data) = Some data.
Proof.
  intros Hc Hin. cbn in Hc. apply collect_loop_Ok in Hc as (new & -> & Hnew).
  cbn [app] in Hin. apply list_elem_of_lookup in Hin as [i Hi].
  destruct (Forall2_lookup_r _ _ _ _ _ Hnew Hi) as (p & _ & f & _ & _ & Hok).
  cbn in Hok. pose proof (read_or_replace_no_CR f data Hok) as Hcr.
  split; [done|]. split.
  - clear -Hcr. unfold Py.replace. induction Hcr as [|c s Hc _ IH]; [done|].
    cbn [flat_map]. apply Ascii.eqb_neq in Hc. by rewrite Hc, IH.
  - unfold cpp_unescape. rewrite cpp_escape_chars, literal_value_escape.
    by rewrite (filter_no_CR data Hcr).
Qed.

Lemma collected_content_exact_witness :
  collect_files (Some sample_lib) = Ok sample_pairs
  ∧ (lit "std.sl", lit "kazi main") ∈ sample_pairs
  ∧ cpp_unescape (cpp_escape (lit "kazi main")) = Some (lit "kazi main").
Proof.
  assert (collect_files (Some sample_lib) = Ok sample_pairs) as H
    by (vm_compute; reflexivity).
  assert ((lit "std.sl", lit "kazi main") ∈ sample_pairs) as Hin
    by (right; left).
  split; [exact H|]. split; [exact Hin|].
  exact (proj2 (proj2 (collected_content_exact _ _ _ _ H Hin))).
Defined.






(** ** Lookups in the generated table *)








(** ** The writer, whatever the environment does *)

Lemma target_never_partial_witness :
  length (mkstemp_random calm_env) = 8
  ∧ ∃ hs, history (atomic_write_if_changed calm_env out_name (lit "new text")
                     old_proc).2
          = history old_proc ++ hs
          ∧ Forall (λ h, h !! out_name = file_at old_proc out_name
                         ∨ h !! out_name = Some (new_file (lit "new text"))) hs.
Proof.
  assert (length (mkstemp_random calm_env) = 8) as Hlen by reflexivity.
  split; [exact Hlen|].
  exact (target_never_partial calm_env out_name (lit "new text") old_proc _ _
           Hlen eq_refl).
Defined.

(** X12.  A call prints exactly one line when it returns, the one that
    matches the value returned ("No changes" for False, "Wrote" for
    True), and prints nothing when it raises. *)
Theorem one_line_printed (e : env) (name content : str) (s s' : proc)
    (r : result bool) :
  length (mkstemp_random e) = 8 →
  atomic_write_if_changed e name content s = (r, s') →
  stdout s' = stdout s ++ match r with
                          | Ok true => [Wrote]
                          | Ok false => [NoChanges]
                          | Raise _ => []
                          end.
Proof.
  intros Hlen Hw.
  destruct (atomic_write_outcome e name content s _ _ Hlen Hw) as (hs & _ & Ho).
  destruct r as [[|]|x]; cbn in Ho.
  - by destruct Ho as (_ & _ & _ & _ & ? & _).
  - by destruct Ho as (_ & _ & _ & ?).
  - destruct Ho as (_ & _ & _ & -> & _). by rewrite app_nil_r.
Qed.

Lemma one_line_printed_witness :
  length (mkstemp_random stuck_env) = 8
  ∧ stdout (atomic_write_if_changed stuck_env out_name (lit "new text") old_proc).2
    = stdout old_proc
      ++ match (atomic_write_if_changed stuck_env out_name (lit "new text")
                  old_proc).1 with
         | Ok true => [Wrote]
         | Ok false => [NoChanges]
         | Raise _ => []
         end.
Proof.
  assert (length (mkstemp_random stuck_env) = 8) as Hlen by reflexivity.
  split; [exact Hlen|].
  exact (one_line_printed stuck_env out_name (lit "new text") old_proc _ _ Hlen
           (surjective_pairing _)).
Defined.

(** X13.  Whenever a call returns True, whatever failures the environment
    had in store, the document could be encoded, the target holds exactly
    its bytes, and every other name of the directory holds what it held
    before: nothing else is created, changed or left behind. *)
Theorem written_directory (e : env) (name content : str) (s s' : proc) :
  length (mkstemp_random e) = 8 →
  atomic_write_if_changed e name content s = (Ok true, s') →
  file_at s' name = Some (new_file content)
  ∧ (∀ n, n ≠ name → file_at s' n = file_at s n)
  ∧ Codec.utf8_valid content = true
  ∧ ¬ unchanged_on_disk s name content.
Proof.
  intros Hlen Hw.
  destruct (atomic_write_outcome e name content s _ _ Hlen Hw)
    as (hs & _ & ? & ? & ? & ? & _).
  done.
Qed.

Lemma written_directory_witness :
  length (mkstemp_random calm_env) = 8
  ∧ (atomic_write_if_changed calm_env out_name (lit "new text") old_proc).1
    = Ok true
  ∧ file_at (atomic_write_if_changed calm_env out_name (lit "new text") old_proc).2
      out_name
    = Some (new_file (lit "new text")).
Proof.
  assert (length (mkstemp_random calm_env) = 8) as Hlen by reflexivity.
  assert (atomic_write_if_changed calm_env out_name (lit "new text") old_proc
          = (Ok true,
             (atomic_write_if_changed calm_env out_name (lit "new text") old_proc).2))
    as Hw by (vm_compute; reflexivity).
  split; [exact Hlen|]. split; [by rewrite Hw|].
  exact (proj1 (written_directory _ _ _ _ _ Hlen Hw)).
Defined.





(** ** main *)

(** X15.  When an eligible file of the tree cannot be read, the run ends
    with status 1 before the writer is reached: the output directory, its
    target included, is left exactly as it was and nothing is printed. *)
Theorem unreadable_input_keeps_output (e : env) (d : libdir) (name : str)
    (s : proc) (p : path) (f : file) :
  p ∈ rglob d → node_at d !! p = Some (File f) →
  has_source_suffix p = true → f_readable f = false →
  main e (Some d) name s = (1%N, s).
Proof.
  intros Hp Hn Hs Hr. unfold main.
  destruct (collect_loop_unreadable d (Py.sorted PathLib.path_ltb (rglob d)) []
              p f) as [x Hx]; try done.
  { by rewrite (sorted_Permutation PathLib.path_ltb). }
  cbn [collect_files]. by rewrite Hx.
Qed.

Lemma unreadable_input_keeps_output_witness :
  [lit "std.sl"] ∈ rglob locked_lib
  ∧ has_source_suffix [lit "std.sl"] = true
  ∧ main calm_env (Some locked_lib) out_name old_proc = (1%N, old_proc).
Proof.
  assert ([lit "std.sl"] ∈ rglob locked_lib) as H1 by left.
  assert (has_source_suffix [lit "std.sl"] = true) as H2 by reflexivity.
  split; [exact H1|]. split; [exact H2|].
  exact (unreadable_input_keeps_output calm_env locked_lib out_name old_proc
           [lit "std.sl"] {| f_bytes := lit "kazi main"; f_readable := false |}
           H1 eq_refl H2 eq_refl).
Defined.

(** ** generate_content *)

